(** * car_logger: the due-service evaluator of [src/main.py] and its SQLite
    record store, as a shallow embedding.

    The [logs] table is a list of rows with an AUTOINCREMENT counter;
    every database operation of the program (opening a connection,
    [cursor.execute], [conn.commit]) is a step of a state and exception
    monad over a world holding the table and an operation clock.  A fault
    oracle, indexed by that clock, says which operation raises which
    sqlite3 exception, so every pattern of storage failures is covered. *)

From Stdlib Require Import ZArith List String Ascii Bool Lia.
From Stdlib Require Import Floats.SpecFloat Sorting.Sorted.
Import ListNotations.
Open Scope string_scope.
Open Scope Z_scope.

(** ** Python floats (IEEE-754 binary64) and [int(x)] *)
Module PyFloat.

Definition prec : Z := 53.
Definition emax : Z := 1024.

(** [float(n)] for a Python int [n]: the binary64 value nearest to [n]. *)
Definition of_int (n : Z) : spec_float := binary_normalize prec emax n 0 false.

(** The literal [0.1]: the binary64 value nearest to 1/10. *)
Definition lit_0_1 : spec_float := SFdiv prec emax (of_int 1) (of_int 10).

(** [x * y] on floats. *)
Definition mul (x y : spec_float) : spec_float := SFmul prec emax x y.

(** [int(x)]: truncation toward zero; [None] where Python raises
    (infinities and NaN). *)
Definition to_int (x : spec_float) : option Z :=
  match x with
  | S754_zero _ => Some 0
  | S754_finite s m e =>
      if 0 <=? e then Some (cond_Zopp s (Z.pos m * 2 ^ e))
      else Some (cond_Zopp s (Z.pos m / 2 ^ (- e)))
  | _ => None
  end.

End PyFloat.

(** ** Constants of the module *)

(** [SERVICE_TYPE] *)
Definition SERVICE_TYPE : list (Z * string) :=
  [ (0, "плановое ТО");
    (1, "внеплановый ремонт") ].

Definition scheduled_maintenance : string := "плановое ТО".
Definition unscheduled_repair : string := "внеплановый ремонт".

(** [PLANNED_WORK_WITH_PERIOD]: work id, (description, period), in the
    insertion order of the Python dict. *)
Definition PLANNED_WORK_WITH_PERIOD : list (Z * (string * Z)) :=
  [ (0, ("Замена масла в двигателе", 15000));
    (1, ("Замена масляного фильтра", 15000));
    (2, ("Замена тормозных дисков", 100000));
    (3, ("Замена топливного фильтра", 80000));
    (4, ("Замена воздушного фильтра для двигателя", 40000));
    (5, ("Замена воздушного фильтра для салона", 20000));
    (6, ("Замена свечей зажигания", 100000));
    (7, ("Замена тормозной жидкости", 40000));
    (8, ("Замена масла в раздаточной коробке", 100000));
    (9, ("Замена масла в механизме заднего дифференциала", 100000));
    (10, ("Замена охлаждающей жидкости двигателя", 80000));
    (11, ("Замена масла в АКПП", 100000)) ].

Definition work_desc (w : Z * (string * Z)) : string := fst (snd w).
Definition work_period (w : Z * (string * Z)) : Z := snd (snd w).

(** ** Python dicts with string keys, as association lists in insertion
    order: assigning an existing key replaces its value in place. *)
Module Dict.

Fixpoint set {V} (k : string) (v : V) (d : list (string * V)) : list (string * V) :=
  match d with
  | [] => [(k, v)]
  | (k', v') :: t => if String.eqb k k' then (k, v) :: t else (k', v') :: set k v t
  end.

Fixpoint get {V} (k : string) (d : list (string * V)) : option V :=
  match d with
  | [] => None
  | (k', v') :: t => if String.eqb k k' then Some v' else get k t
  end.

Definition keys {V} (d : list (string * V)) : list string := map fst d.

End Dict.

(** ** The record store: the SQLite table [logs] *)

(** [LogRecord]; [service_date] is kept as its [isoformat()] string, the
    only form in which the code uses it. *)
Record LogRecord := mkLogRecord {
  mileage : Z;
  service_date : string;
  type_ : string;
  service_description : string
}.

(** A row of [logs]: [id, mileage, date, type, description]. *)
Record Row := mkRow {
  row_id : Z;
  row_mileage : Z;
  row_date : string;
  row_type : string;
  row_description : string
}.

(** The table and its [sqlite_sequence] entry (AUTOINCREMENT). *)
Record Db := mkDb {
  logs : list Row;
  seq : Z
}.

(** [SELECT mileage FROM logs WHERE description = ?] *)
Definition select_mileage_where (desc : string) (d : Db) : list Z :=
  map row_mileage (filter (fun r => String.eqb (row_description r) desc) (logs d)).

(** [ORDER BY mileage DESC LIMIT 1] followed by [fetchone()] on the one
    selected column: the largest value, or [None] for no row. *)
Definition order_desc_limit1 (ms : list Z) : option Z :=
  fold_right (fun x acc => match acc with
                           | None => Some x
                           | Some y => Some (Z.max x y)
                           end) None ms.

(** The answer of [GET_LAST_SERVICE_SQL] on a table. *)
Definition get_last_service (d : Db) (desc : string) : option Z :=
  order_desc_limit1 (select_mileage_where desc d).

(** Python ints bound to an SQLite INTEGER must fit in 64 bits. *)
Definition in_int64 (n : Z) : bool := (- 2 ^ 63 <=? n) && (n <? 2 ^ 63).

(** [INSERT INTO logs (mileage, date, type, description) VALUES (?,?,?,?)]
    inside the connection's open transaction: the new [lastrowid] and the
    table as it will be once committed. *)
Definition insert_row (r : LogRecord) (d : Db) : Z * Db :=
  let id := seq d + 1 in
  (id, mkDb (logs d ++ [mkRow id (mileage r) (service_date r) (type_ r)
                                  (service_description r)]) id).

(** ** Exceptions and the state/exception monad *)

Inductive exn :=
| OperationalError (msg : string)   (* sqlite3.OperationalError *)
| DatabaseError (msg : string)      (* sqlite3.DatabaseError, other than the above *)
| OverflowError                     (* int too large for SQLite, int(inf) *)
| ValueError.                       (* int(nan) *)

Inductive res (A : Type) :=
| Ok (a : A)
| Raise (e : exn).
Arguments Ok {A} a.
Arguments Raise {A} e.

(** The world: the database file and the number of database operations
    performed so far. *)
Record World := mkWorld {
  db : Db;
  clock : nat
}.

Definition M (A : Type) := World -> res A * World.

Definition ret {A} (a : A) : M A := fun w => (Ok a, w).

Definition bind {A B} (m : M A) (f : A -> M B) : M B :=
  fun w => match m w with
           | (Ok a, w') => f a w'
           | (Raise e, w') => (Raise e, w')
           end.

Definition raise {A} (e : exn) : M A := fun w => (Raise e, w).

Notation "'do' x <- m ; k" := (bind m (fun x => k))
  (at level 60, x name, m at next level, right associativity).

Definition set_db (d : Db) (w : World) : World := mkWorld d (clock w).

(** [admission = int(period * 0.1)], the 10% tolerance. *)
Definition admission (period : Z) : option Z :=
  PyFloat.to_int (PyFloat.mul (PyFloat.of_int period) PyFloat.lit_0_1).
Arguments admission period : simpl never.

(** The value of [check_necessary_service]: description to
    (last mileage, next service mileage). *)
Definition due_map := list (string * (Z * Z)).

Section Program.

(** Which database operation (by its position on the clock) raises. *)
Context (fault : nat -> option exn).

(** One database operation: it raises when the oracle says so, otherwise
    it runs [act] on the database file. *)
Definition db_op {A} (act : Db -> A * Db) : M A :=
  fun w => match fault (clock w) with
           | Some e => (Raise e, mkWorld (db w) (S (clock w)))
           | None => let '(a, d') := act (db w) in (Ok a, mkWorld d' (S (clock w)))
           end.

(** [sqlite3.connect(self._db_path)] *)
Definition connect : M unit := db_op (fun d => (tt, d)).

(** [cursor.execute(GET_LAST_SERVICE_SQL, (desc,)); cursor.fetchone()] *)
Definition execute_get_last (desc : string) : M (option Z) :=
  db_op (fun d => (get_last_service d desc, d)).

(** [cursor.execute(CREATE_RECORD_SQL, ...)]: binding a mileage outside
    64 bits raises [OverflowError]; the row is pending until commit. *)
Definition execute_insert (r : LogRecord) : M (Z * Db) :=
  if in_int64 (mileage r) then db_op (fun d => (insert_row r d, d))
  else raise OverflowError.

(** [conn.commit()] of the pending table. *)
Definition commit (d' : Db) : M unit := db_op (fun _ => (tt, d')).

(** The loop body of [check_necessary_service], over the catalog. *)
Fixpoint scan (current_mileage : Z) (works : list (Z * (string * Z)))
         (service_required : due_map) : M due_map :=
  match works with
  | [] => ret service_required
  | (work_id, (desc, period)) :: rest =>
      do result <- execute_get_last desc;
      let last_mileage := match result with Some m => m | None => 0 end in
      let next_service := last_mileage + period in
      match admission period with
      | None => raise OverflowError
      | Some admission =>
          if current_mileage >=? next_service - admission
          then scan current_mileage rest
                 (Dict.set desc (last_mileage, next_service) service_required)
          else scan current_mileage rest service_required
      end
  end.

(** [CarLogger.check_necessary_service] *)
Definition check_necessary_service (current_mileage : Z) : M due_map :=
  do _ <- connect; scan current_mileage PLANNED_WORK_WITH_PERIOD [].

(** [CarLogger.create_record]: on an exception the [with conn:] block
    rolls the pending insert back, so only a committed row is stored. *)
Definition create_record (record : LogRecord) : M Z :=
  do _ <- connect;
  do ins <- execute_insert record;
  do _ <- commit (snd ins);
  ret (fst ins).

(** The two status labels of [display_service_status]. *)
Inductive status := Required (* "ТРЕБУЕТСЯ!" *) | Soon (* "Скоро потребуется" *).

(** What [display_service_status] shows. *)
Inductive screen :=
| DbErrorMessage (msg : string)        (* "Ошибка при доступе к базе данных: ..." *)
| AllSystemsOk                         (* "Все системы в норме, сервис не требуется!" *)
| ServiceTable (rows : list (string * Z * Z * Z * status)).

Definition service_status (current_mileage next_service : Z) : status :=
  if current_mileage >=? next_service then Required else Soon.

(** The cells of [table.add_row] for one entry (thousands separators
    aside). *)
Definition service_row (current_mileage : Z) (entry : string * (Z * Z))
  : string * Z * Z * Z * status :=
  let '(work_desc, (last_mileage, next_service)) := entry in
  (work_desc, last_mileage, next_service, current_mileage,
   service_status current_mileage next_service).

(** [CarLogger.display_service_status]: catches [sqlite3.OperationalError]
    only. *)
Definition display_service_status (current_mileage : Z) : M screen :=
  fun w =>
    match check_necessary_service current_mileage w with
    | (Raise (OperationalError msg), w') => (Ok (DbErrorMessage msg), w')
    | (Raise e, w') => (Raise e, w')
    | (Ok [], w') => (Ok AllSystemsOk, w')
    | (Ok service_required, w') =>
        (Ok (ServiceTable (map (service_row current_mileage) service_required)), w')
    end.

End Program.

(** A store on which no database operation fails. *)
Definition healthy : nat -> option exn := fun _ => None.

(** [scan] when every database query succeeds, on the table [d]. *)
Fixpoint scan_all (d : Db) (current_mileage : Z) (works : list (Z * (string * Z)))
         (service_required : due_map) : res due_map :=
  match works with
  | [] => Ok service_required
  | (work_id, (desc, period)) :: rest =>
      let last_mileage := match get_last_service d desc with Some m => m | None => 0 end in
      let next_service := last_mileage + period in
      match admission period with
      | None => Raise OverflowError
      | Some a =>
          if current_mileage >=? next_service - a
          then scan_all d current_mileage rest
                 (Dict.set desc (last_mileage, next_service) service_required)
          else scan_all d current_mileage rest service_required
      end
  end.

(** The complete catalog scan on the table [d]. *)
Definition full_scan (d : Db) (current_mileage : Z) : res due_map :=
  scan_all d current_mileage PLANNED_WORK_WITH_PERIOD [].

(** The mileage [L] of the claims: that of the highest-mileage row with
    the description, or 0 when there is none. *)
Definition last_mileage_of (d : Db) (desc : string) (L : Z) : Prop :=
  (exists r, In r (logs d) /\ row_description r = desc /\ row_mileage r = L /\
             forall r', In r' (logs d) -> row_description r' = desc -> row_mileage r' <= L)
  \/ ((forall r, In r (logs d) -> row_description r <> desc) /\ L = 0).

(** The descriptions of the catalog. *)
Definition catalog_descs : list string := map work_desc PLANNED_WORK_WITH_PERIOD.

(** A row of an unscheduled repair whose free-text description is none of
    the catalog's descriptions. *)
Definition untracked_repair (r : Row) : bool :=
  String.eqb (row_type r) unscheduled_repair &&
  negb (existsb (String.eqb (row_description r)) catalog_descs).

Definition drop_untracked_repairs (d : Db) : Db :=
  mkDb (filter (fun r => negb (untracked_repair r)) (logs d)) (seq d).

(** ** Concrete stores and failures *)

Definition oil_change : string := "Замена масла в двигателе".

Definition empty_world : World := mkWorld (mkDb [] 0) 0.

(** One unscheduled repair whose description is typed as the catalog's
    oil change. *)
Definition repair_world : World :=
  mkWorld (mkDb [mkRow 1 20000 "2024-03-01" unscheduled_repair oil_change] 1) 0.

(** An oil change recorded at 30000 km. *)
Definition oil_world : World :=
  mkWorld (mkDb [mkRow 1 30000 "2024-05-01" scheduled_maintenance oil_change] 1) 0.

(** A later entry of an oil change at a lower mileage. *)
Definition oil_record_10000 : LogRecord :=
  mkLogRecord 10000 "2024-06-01" scheduled_maintenance oil_change.

(** A record with a negative mileage and an empty description. *)
Definition invalid_record : LogRecord :=
  mkLogRecord (-5) "2024-06-01" unscheduled_repair "".

(** The first query after connecting finds a corrupted page. *)
Definition malformed_page : nat -> option exn :=
  fun n => match n with
           | 1%nat => Some (DatabaseError "database disk image is malformed")
           | _ => None
           end.

(** ** The "add a record" branch of [main] *)

(** Lookup in a Python dict with int keys. *)
Fixpoint zlookup {V} (k : Z) (d : list (Z * V)) : option V :=
  match d with
  | [] => None
  | (k', v) :: t => if k =? k' then Some v else zlookup k t
  end.

(** The record [main] builds from the answers to its prompts: the mileage,
    today's date (as its isoformat), the service type, then the work code
    for scheduled work or the free text for a repair.  [IntPrompt] only
    accepts keys of the two dicts; [None] stands for an answer it refuses. *)
Definition record_of_answers (mileage_answer : Z) (today : string) (service_type : Z)
    (work_type : Z) (free_text : string) : option LogRecord :=
  match zlookup service_type SERVICE_TYPE with
  | None => None
  | Some type_name =>
      if service_type =? 0 then
        match zlookup work_type PLANNED_WORK_WITH_PERIOD with
        | Some (desc, _) => Some (mkLogRecord mileage_answer today type_name desc)
        | None => None
        end
      else Some (mkLogRecord mileage_answer today type_name free_text)
  end.

(** ** The due mapping in closed form *)

(** The mileage [L] the lookup gives for a description (0 for none). *)
Definition last_or_zero (d : Db) (desc : string) : Z :=
  match get_last_service d desc with Some l => l | None => 0 end.

(** The entry of a catalog task when it is due at [m], with the tenth of
    its period as tolerance. *)
Definition due_entry (d : Db) (m : Z) (work : Z * (string * Z)) : list (string * (Z * Z)) :=
  let '(_, (desc, p)) := work in
  if m >=? last_or_zero d desc + p - p / 10
  then [(desc, (last_or_zero d desc, last_or_zero d desc + p))]
  else [].

Definition due_tasks (d : Db) (m : Z) : due_map :=
  flat_map (due_entry d m) PLANNED_WORK_WITH_PERIOD.

(** ** Ids of the [logs] table *)

(** The ids of the rows increase along the table and none exceeds the
    AUTOINCREMENT counter. *)
Definition ids_ok (d : Db) : Prop :=
  StronglySorted Z.lt (map row_id (logs d)) /\ Forall (fun r => row_id r <= seq d) (logs d).

(** ** Thousands grouping: [f"{n:,}".replace(",", " ")] *)

(** The character of a decimal digit [0 <= d <= 9]. *)
Definition digit_char (d : Z) : ascii := ascii_of_nat (48 + Z.to_nat d).

(** The decimal digits of [n >= 0], least significant first; [fuel]
    bounds their number. *)
Fixpoint digits_le (fuel : nat) (n : Z) : list ascii :=
  match fuel with
  | O => []
  | S f => if n <? 10 then [digit_char n] else digit_char (n mod 10) :: digits_le f (n / 10)
  end.

(** The decimal digits of [n >= 0], least significant first
    ([n < 2 ^ (log2 n + 1) <= 10 ^ (log2 n + 1)]). *)
Definition decimal_le (n : Z) : list ascii := digits_le (S (Z.to_nat (Z.log2 n))) n.

(** The [,] option of the format mini-language on the little-endian
    digits: a comma after every third digit counted from the right. *)
Fixpoint group3 (ds : list ascii) : list ascii :=
  match ds with
  | a :: b :: c :: rest =>
      match rest with
      | [] => [a; b; c]
      | _ :: _ => a :: b :: c :: ","%char :: group3 rest
      end
  | _ => ds
  end.

(** [f"{n:,}"] for a Python int [n]. *)
Definition format_thousands (n : Z) : string :=
  string_of_list_ascii
    ((if n <? 0 then ["-"%char] else []) ++ rev (group3 (decimal_le (Z.abs n))))%list.

(** [s.replace(a, b)] for one-character [a] and [b]. *)
Definition replace_char (a b : ascii) (s : string) : string :=
  string_of_list_ascii (map (fun c => if Ascii.eqb c a then b else c) (list_ascii_of_string s)).

(** A mileage cell of the tables of [display_service_status] and
    [show_service_history]. *)
Definition mileage_cell (n : Z) : string := replace_char "," " " (format_thousands n).








(** [str(n)] for a Python int [n]. *)
Definition py_str (n : Z) : string :=
  string_of_list_ascii
    ((if n <? 0 then ["-"%char] else []) ++ rev (decimal_le (Z.abs n)))%list.

(** [sub in s] for strings. *)
Fixpoint str_contains (sub s : string) : bool :=
  String.prefix sub s ||
  match s with
  | EmptyString => false
  | String _ s' => str_contains sub s'
  end.

(** ** [CarLogger.show_service_history] *)

(** What [show_service_history] shows. *)
Inductive history_screen :=
| EmptyHistory                          (* "История обслуживания пуста" *)
| HistoryTable (rows : list (string * string * string * string * string)).

(** [service_style = "success" if "плановое" in row[3] else "warning"] *)
Definition service_style (type_ : string) : string :=
  if str_contains "плановое" type_ then "success" else "warning".

Section History.

Context (fault : nat -> option exn).

(** The date cell: [date.fromisoformat(row[2]).strftime("%d.%m.%Y")], or
    [row[2]] itself where [fromisoformat] raises [ValueError].  Which
    strings [fromisoformat] accepts depends on the Python version, so the
    cell is left as a parameter. *)
Context (date_cell : string -> string).

(** [cursor.execute(GET_ALL_RECORDS_SQL); cursor.fetchall()]: a scan of
    the rowid table [logs], in rowid order. *)
Definition execute_get_all : M (list Row) := db_op fault (fun d => (logs d, d)).

(** The cells of [table.add_row] for one row. *)
Definition history_row (row : Row) : string * string * string * string * string :=
  (py_str (row_id row), mileage_cell (row_mileage row), date_cell (row_date row),
   "[" ++ service_style (row_type row) ++ "]" ++ row_type row ++ "[/]",
   row_description row).

Definition show_service_history : M history_screen :=
  do _ <- connect fault;
  do rows <- execute_get_all;
  match rows with
  | [] => ret EmptyHistory
  | _ :: _ => ret (HistoryTable (map history_row rows))
  end.

End History.

(** ** Lemmas on dicts *)

Lemma dict_get_set {V} (k k' : string) (v : V) (d : list (string * V)) :
  Dict.get k (Dict.set k' v d) = if String.eqb k k' then Some v else Dict.get k d.
Proof.
  induction d as [|[k0 v0] t IH]; simpl.
  - reflexivity.
  - destruct (String.eqb_spec k' k0) as [<-|Hne]; simpl.
    + destruct (String.eqb k k'); reflexivity.
    + rewrite IH.
      destruct (String.eqb_spec k k0), (String.eqb_spec k k'); subst;
        try congruence; reflexivity.
Qed.

Lemma dict_in_keys {V} (k : string) (d : list (string * V)) :
  In k (Dict.keys d) <-> Dict.get k d <> None.
Proof.
  induction d as [|[k0 v0] t IH]; simpl.
  - tauto.
  - destruct (String.eqb_spec k k0) as [->|Hne].
    + split; [discriminate | auto].
    + rewrite <- IH. split; [intros [H|H]; [congruence|exact H] | auto].
Qed.

(** ** The query [GET_LAST_SERVICE_SQL] *)

Lemma order_desc_limit1_none (ms : list Z) :
  order_desc_limit1 ms = None <-> ms = [].
Proof.
  destruct ms as [|x t]; simpl; [tauto|].
  split; [|discriminate].
  destruct (order_desc_limit1 t); discriminate.
Qed.

Lemma order_desc_limit1_some (ms : list Z) (l : Z) :
  order_desc_limit1 ms = Some l -> In l ms /\ forall x, In x ms -> x <= l.
Proof.
  revert l; induction ms as [|x t IH]; intros l H; simpl in *; [discriminate|].
  destruct (order_desc_limit1 t) as [y|] eqn:E; injection H as <-.
  - destruct (IH y eq_refl) as [Hin Hmax].
    split.
    + destruct (Z.max_spec x y) as [[_ ->]|[_ ->]]; auto.
    + intros z [<-|Hz]; [lia|]. specialize (Hmax z Hz). lia.
  - apply order_desc_limit1_none in E; subst.
    split; [auto|]. intros z [<-|[]]; lia.
Qed.

Lemma select_mileage_where_In (desc : string) (d : Db) (x : Z) :
  In x (select_mileage_where desc d) <->
  exists r, In r (logs d) /\ row_description r = desc /\ row_mileage r = x.
Proof.
  unfold select_mileage_where. rewrite in_map_iff.
  split.
  - intros (r & <- & Hr). apply filter_In in Hr as [Hr He].
    apply String.eqb_eq in He. eauto.
  - intros (r & Hr & He & <-). exists r. split; [reflexivity|].
    apply filter_In. split; [exact Hr|]. apply String.eqb_eq. exact He.
Qed.

(** The answer of the query is the mileage [L] of the claims. *)
Lemma last_mileage_of_get (d : Db) (desc : string) (L : Z) :
  last_mileage_of d desc L ->
  L = match get_last_service d desc with Some l => l | None => 0 end.
Proof.
  unfold get_last_service.
  intros [(r & Hr & Hd & HL & Hmax) | [Hnone HL]].
  - destruct (order_desc_limit1 (select_mileage_where desc d)) as [l|] eqn:E.
    + destruct (order_desc_limit1_some _ _ E) as [Hin Hle].
      apply select_mileage_where_In in Hin as (r0 & Hr0 & Hd0 & <-).
      specialize (Hmax r0 Hr0 Hd0).
      assert (row_mileage r <= row_mileage r0).
      { apply Hle, select_mileage_where_In. eauto. }
      lia.
    + apply order_desc_limit1_none in E.
      assert (Hin : In (row_mileage r) (select_mileage_where desc d)).
      { apply select_mileage_where_In. eauto. }
      rewrite E in Hin. destruct Hin.
  - destruct (order_desc_limit1 (select_mileage_where desc d)) as [l|] eqn:E; [|exact HL].
    destruct (order_desc_limit1_some _ _ E) as [Hin _].
    apply select_mileage_where_In in Hin as (r0 & Hr0 & Hd0 & _).
    destruct (Hnone r0 Hr0 Hd0).
Qed.

Lemma get_last_service_insert (r : LogRecord) (d : Db) :
  get_last_service (snd (insert_row r d)) (service_description r) =
  Some (match get_last_service d (service_description r) with
        | Some l => Z.max l (mileage r)
        | None => mileage r
        end).
Proof.
  unfold get_last_service, select_mileage_where; simpl.
  rewrite filter_app, map_app. simpl. rewrite String.eqb_refl. simpl.
  generalize (map row_mileage (filter (fun r0 => String.eqb (row_description r0)
                                                 (service_description r)) (logs d))).
  intros ms. induction ms as [|x t IH]; simpl; [reflexivity|].
  rewrite IH. destruct (order_desc_limit1 t); f_equal; lia.
Qed.

(** ** The catalog *)

Lemma catalog_nodup : NoDup (map work_desc PLANNED_WORK_WITH_PERIOD).
Proof.
  cbv [map work_desc fst snd PLANNED_WORK_WITH_PERIOD].
  repeat constructor; cbn [In]; intuition discriminate.
Qed.

(** [int(period * 0.1)] is [period / 10] for every catalog period. *)
Lemma admission_catalog (id : Z) (desc : string) (p : Z) :
  In (id, (desc, p)) PLANNED_WORK_WITH_PERIOD -> admission p = Some (p / 10).
Proof.
  simpl. intros H.
  repeat destruct H as [H|H]; try (injection H as <- <- <-; vm_compute; reflexivity).
  destruct H.
Qed.

(** ** The evaluator's run *)

Ltac step_db_op :=
  unfold bind, execute_get_last, connect, db_op;
  match goal with
  | |- context [?f (clock ?w)] => destruct (f (clock w)) eqn:?
  end; simpl.

Lemma scan_db (fault : nat -> option exn) (cur : Z) works acc (w : World) :
  db (snd (scan fault cur works acc w)) = db w.
Proof.
  revert acc w.
  induction works as [|[id [desc p]] rest IH]; intros acc w; simpl; [reflexivity|].
  step_db_op; [reflexivity|].
  destruct (admission p); simpl; [|reflexivity].
  destruct (_ >=? _); rewrite IH; reflexivity.
Qed.

Lemma scan_ok (fault : nat -> option exn) (cur : Z) works acc (w : World) r w' :
  scan fault cur works acc w = (Ok r, w') -> scan_all (db w) cur works acc = Ok r.
Proof.
  revert acc w.
  induction works as [|[id [desc p]] rest IH]; intros acc w H; simpl in *.
  - unfold ret in H. congruence.
  - revert H. step_db_op; [discriminate|].
    destruct (admission p); simpl; [|discriminate].
    destruct (_ >=? _); intros H; apply IH in H; exact H.
Qed.

Lemma check_db (fault : nat -> option exn) (m : Z) (w : World) :
  db (snd (check_necessary_service fault m w)) = db w.
Proof.
  unfold check_necessary_service, bind, connect, db_op.
  destruct (fault (clock w)); cbv beta iota; [reflexivity|].
  rewrite scan_db. reflexivity.
Qed.

Lemma check_ok (fault : nat -> option exn) (m : Z) (w : World) r w' :
  check_necessary_service fault m w = (Ok r, w') -> full_scan (db w) m = Ok r.
Proof.
  unfold check_necessary_service, bind, connect, db_op.
  destruct (fault (clock w)); cbv beta iota; [discriminate|].
  apply scan_ok.
Qed.

Lemma scan_all_get_other (d : Db) (cur : Z) works acc r desc :
  ~ In desc (map work_desc works) ->
  scan_all d cur works acc = Ok r -> Dict.get desc r = Dict.get desc acc.
Proof.
  revert acc.
  induction works as [|[id [desc' p]] rest IH]; intros acc Hnin H; simpl in *.
  - congruence.
  - destruct (admission p); [|discriminate].
    destruct (_ >=? _); apply IH in H; try tauto; rewrite H; try reflexivity.
    rewrite dict_get_set.
    destruct (String.eqb_spec desc desc'); [subst; tauto | reflexivity].
Qed.

Lemma scan_all_get_in (d : Db) (cur : Z) works acc r id desc p a :
  NoDup (map work_desc works) ->
  In (id, (desc, p)) works ->
  admission p = Some a ->
  scan_all d cur works acc = Ok r ->
  let L := match get_last_service d desc with Some l => l | None => 0 end in
  Dict.get desc r = if cur >=? L + p - a then Some (L, L + p) else Dict.get desc acc.
Proof.
  revert acc.
  induction works as [|[id' [desc' p']] rest IH]; intros acc Hnd Hin Ha H L;
    simpl in *; [destruct Hin|].
  inversion Hnd as [|? ? Hnin Hnd']; subst.
  destruct Hin as [Heq|Hin].
  - injection Heq as -> -> ->. rewrite Ha in H. fold L in H.
    destruct (cur >=? L + p - a).
    + rewrite (scan_all_get_other d cur rest _ r desc Hnin H), dict_get_set, String.eqb_refl.
      reflexivity.
    + exact (scan_all_get_other d cur rest _ r desc Hnin H).
  - assert (Hne : desc <> desc').
    { intros ->. apply Hnin. apply in_map_iff. exists (id, (desc', p)). auto. }
    destruct (admission p') as [a'|]; [|discriminate].
    apply String.eqb_neq in Hne.
    destruct (cur >=? match get_last_service d desc' with Some m => m | None => 0 end + p' - a');
      apply IH in H; auto; rewrite H; fold L; try reflexivity.
    rewrite dict_get_set, Hne. reflexivity.
Qed.

Lemma dict_keys_set {V} (x k : string) (v : V) (d : list (string * V)) :
  In x (Dict.keys (Dict.set k v d)) <-> x = k \/ In x (Dict.keys d).
Proof.
  rewrite !dict_in_keys, dict_get_set.
  destruct (String.eqb_spec x k); split; intros H; auto; try discriminate.
  destruct H; [contradiction | exact H].
Qed.

Lemma dict_in_set {V} (k k' : string) (v v' : V) (d : list (string * V)) :
  In (k, v) (Dict.set k' v' d) -> (k, v) = (k', v') \/ In (k, v) d.
Proof.
  induction d as [|[k0 v0] t IH]; simpl.
  - intros [H|[]]; auto.
  - destruct (String.eqb k' k0).
    + intros [H|H]; auto.
    + intros [H|H]; auto. destruct (IH H); auto.
Qed.

(** Raising the mileage only adds tasks. *)
Lemma scan_all_mono (d : Db) (m1 m2 : Z) works acc1 acc2 r1 r2 :
  m1 <= m2 ->
  (forall k, In k (Dict.keys acc1) -> In k (Dict.keys acc2)) ->
  scan_all d m1 works acc1 = Ok r1 ->
  scan_all d m2 works acc2 = Ok r2 ->
  forall k, In k (Dict.keys r1) -> In k (Dict.keys r2).
Proof.
  intros Hle. revert acc1 acc2.
  induction works as [|[id [desc p]] rest IH]; intros acc1 acc2 Hacc H1 H2; simpl in *.
  - injection H1 as <-. injection H2 as <-. exact Hacc.
  - destruct (admission p) as [a|]; [|discriminate].
    set (T := match get_last_service d desc with Some l => l | None => 0 end + p - a) in *.
    destruct (Z.geb_spec m1 T), (Z.geb_spec m2 T); try lia;
      refine (IH _ _ _ H1 H2); intros k Hk.
    + apply dict_keys_set. apply dict_keys_set in Hk as [Hk|Hk]; auto.
    + apply dict_keys_set. auto.
    + auto.
Qed.

(** Every reported task was found due: its mileage reaches the next
    service minus the admission. *)
Lemma scan_all_entries (d : Db) (cur : Z) works acc r :
  scan_all d cur works acc = Ok r ->
  forall k l n, In (k, (l, n)) r ->
  In (k, (l, n)) acc \/
  exists id p a, In (id, (k, p)) works /\ admission p = Some a /\ n - a <= cur.
Proof.
  revert acc.
  induction works as [|[id [desc p]] rest IH]; intros acc H k l n Hin; simpl in *.
  - injection H as ->. auto.
  - destruct (admission p) as [a|] eqn:Ha; [|discriminate].
    destruct (Z.geb_spec cur (match get_last_service d desc with Some m => m | None => 0 end + p - a))
      as [Hge|Hlt].
    + destruct (IH _ H k l n Hin) as [Hacc|(id' & p' & a' & Hw & Ha' & Hn)].
      * apply dict_in_set in Hacc as [Heq|Hacc]; auto.
        injection Heq as -> -> ->. right. exists id, p, a.
        split; [left; reflexivity|]. split; [exact Ha|]. lia.
      * right. exists id', p', a'. split; [right; exact Hw|]. auto.
    + destruct (IH _ H k l n Hin) as [Hacc|(id' & p' & a' & Hw & Ha' & Hn)]; auto.
      right. exists id', p', a'. split; [right; exact Hw|]. auto.
Qed.

(** The scan reads the table only through [GET_LAST_SERVICE_SQL] on the
    descriptions of the works it scans. *)
Lemma scan_ext (fault : nat -> option exn) (cur : Z) works acc (d1 d2 : Db) (c : nat) :
  (forall id desc p, In (id, (desc, p)) works ->
     get_last_service d1 desc = get_last_service d2 desc) ->
  fst (scan fault cur works acc (mkWorld d1 c)) = fst (scan fault cur works acc (mkWorld d2 c)) /\
  clock (snd (scan fault cur works acc (mkWorld d1 c))) =
  clock (snd (scan fault cur works acc (mkWorld d2 c))).
Proof.
  revert acc c.
  induction works as [|[id [desc p]] rest IH]; intros acc c Hsame; simpl; [auto|].
  unfold bind, execute_get_last, db_op; simpl.
  destruct (fault c); simpl; [auto|].
  rewrite (Hsame id desc p (or_introl eq_refl)).
  assert (Hrest : forall id' desc' p', In (id', (desc', p')) rest ->
            get_last_service d1 desc' = get_last_service d2 desc').
  { intros id' desc' p' Hin. apply (Hsame id' desc' p'). right. exact Hin. }
  destruct (admission p); simpl; [|auto].
  destruct (_ >=? _); apply IH; exact Hrest.
Qed.

Lemma get_last_service_drop (d : Db) (desc : string) :
  In desc catalog_descs ->
  get_last_service (drop_untracked_repairs d) desc = get_last_service d desc.
Proof.
  intros Hcat. unfold get_last_service, select_mileage_where, drop_untracked_repairs.
  cbn [logs]. do 2 f_equal.
  induction (logs d) as [|r t IH]; simpl; [reflexivity|].
  destruct (untracked_repair r) eqn:U; simpl.
  - destruct (String.eqb (row_description r) desc) eqn:E; [|exact IH].
    exfalso. unfold untracked_repair in U.
    apply andb_prop in U as [_ U]. apply negb_true_iff in U.
    assert (Hex : existsb (String.eqb (row_description r)) catalog_descs = true).
    { apply existsb_exists. exists desc. auto. }
    congruence.
  - destruct (String.eqb (row_description r) desc); [f_equal|]; exact IH.
Qed.

Lemma create_record_ok (fault : nat -> option exn) (r : LogRecord) (w : World) i w1 :
  create_record fault r w = (Ok i, w1) ->
  db w1 = snd (insert_row r (db w)) /\ i = seq (db w) + 1.
Proof.
  intros H.
  unfold create_record, bind, ret, connect, execute_insert, commit, raise, db_op in H.
  destruct (fault (clock w)); simpl in H; [discriminate H|].
  destruct (in_int64 (mileage r)); simpl in H; [|discriminate H].
  destruct (fault (S (clock w))); simpl in H; [discriminate H|].
  destruct (fault (S (S (clock w)))); simpl in H; [discriminate H|].
  injection H as <- <-. split; reflexivity.
Qed.

(** * The claims *)

(** C1: whenever [check_necessary_service] returns a mapping, a catalog
    task with description [desc] and interval [p] is a key of it exactly
    when [m >= L + p - floor(p * 0.1)], where [L] is the mileage of the
    highest-mileage stored record with that exact description (0 when there
    is none); its value is then [(L, L + p)].  A healthy store always
    returns a mapping (see the witness); the mileage [m] may be any int. *)
Theorem check_necessary_service_due_iff (fault : nat -> option exn) (m : Z) (w : World)
    (r : due_map) (w' : World) (id : Z) (desc : string) (p L : Z) :
  check_necessary_service fault m w = (Ok r, w') ->
  In (id, (desc, p)) PLANNED_WORK_WITH_PERIOD ->
  last_mileage_of (db w) desc L ->
  (In desc (Dict.keys r) <-> L + p - p / 10 <= m) /\
  (L + p - p / 10 <= m -> Dict.get desc r = Some (L, L + p)).
Proof.
  intros Hrun Hin HL.
  apply check_ok in Hrun. apply last_mileage_of_get in HL.
  pose proof (scan_all_get_in (db w) m _ [] r id desc p (p / 10) catalog_nodup Hin
                (admission_catalog _ _ _ Hin) Hrun) as Hget.
  cbv zeta in Hget. rewrite <- HL in Hget.
  change (Dict.get desc (@nil (string * (Z * Z)))) with (@None (Z * Z)) in Hget.
  rewrite dict_in_keys, Hget.
  destruct (Z.geb_spec m (L + p - p / 10)).
  - split; [split; [intros _; lia | discriminate] | reflexivity].
  - split; [split; [intros H'; contradiction H'; reflexivity | lia] | lia].
Qed.

Lemma check_necessary_service_due_iff_witness :
  check_necessary_service healthy 14000 empty_world =
    (Ok [(oil_change, (0, 15000)); ("Замена масляного фильтра", (0, 15000))],
     mkWorld (mkDb [] 0) 13) /\
  In (0, (oil_change, 15000)) PLANNED_WORK_WITH_PERIOD /\
  last_mileage_of (db empty_world) oil_change 0 /\
  (In oil_change (Dict.keys [(oil_change, (0, 15000)); ("Замена масляного фильтра", (0, 15000))])
     <-> 0 + 15000 - 15000 / 10 <= 14000) /\
  (0 + 15000 - 15000 / 10 <= 14000 ->
     Dict.get oil_change [(oil_change, (0, 15000)); ("Замена масляного фильтра", (0, 15000))]
     = Some (0, 0 + 15000)).
Proof.
  assert (H1 : check_necessary_service healthy 14000 empty_world =
    (Ok [(oil_change, (0, 15000)); ("Замена масляного фильтра", (0, 15000))],
     mkWorld (mkDb [] 0) 13)) by (vm_compute; reflexivity).
  assert (H2 : In (0, (oil_change, 15000)) PLANNED_WORK_WITH_PERIOD) by (left; reflexivity).
  assert (H3 : last_mileage_of (db empty_world) oil_change 0).
  { right. split; [intros r [] | reflexivity]. }
  split; [exact H1|]. split; [exact H2|]. split; [exact H3|].
  exact (check_necessary_service_due_iff healthy 14000 empty_world _ _ 0 oil_change 15000 0
           H1 H2 H3).
Defined.

(** C5: for every task of the catalog, the admission [int(period * 0.1)],
    computed in binary64 floating point as the code does, is exactly
    [floor(period / 10)] in integer arithmetic. *)
Theorem admission_is_tenth (id : Z) (desc : string) (p : Z) :
  In (id, (desc, p)) PLANNED_WORK_WITH_PERIOD -> admission p = Some (p / 10).
Proof.
  simpl. intros H.
  repeat destruct H as [H|H]; try (injection H as <- <- <-; vm_compute; reflexivity).
  destruct H.
Qed.

Lemma admission_is_tenth_witness :
  In (2, ("Замена тормозных дисков", 100000)) PLANNED_WORK_WITH_PERIOD /\
  admission 100000 = Some (100000 / 10).
Proof.
  assert (H : In (2, ("Замена тормозных дисков", 100000)) PLANNED_WORK_WITH_PERIOD).
  { simpl. right. right. left. reflexivity. }
  split; [exact H|].
  exact (admission_is_tenth 2 "Замена тормозных дисков" 100000 H).
Defined.

(** C2 (as corrected): after a successful [create_record r], the query
    [GET_LAST_SERVICE_SQL] for [r]'s description returns the largest of
    [r]'s mileage and the mileages already stored under that description;
    it returns [r]'s own mileage only when no stored record with that
    description has a higher one. *)
Theorem create_record_then_get_last (fault : nat -> option exn) (r : LogRecord) (w : World)
    (i : Z) (w1 : World) (x : option Z) (w2 : World) :
  create_record fault r w = (Ok i, w1) ->
  execute_get_last fault (service_description r) w1 = (Ok x, w2) ->
  x = Some (match get_last_service (db w) (service_description r) with
            | Some l => Z.max l (mileage r)
            | None => mileage r
            end).
Proof.
  intros Hc. apply create_record_ok in Hc as [Hdb _].
  intros Hq. unfold execute_get_last, db_op in Hq.
  destruct (fault (clock w1)); simpl in Hq; [discriminate Hq|].
  injection Hq as <- _. rewrite Hdb. apply get_last_service_insert.
Qed.

Lemma create_record_then_get_last_witness :
  create_record healthy oil_record_10000 empty_world =
    (Ok 1, snd (create_record healthy oil_record_10000 empty_world)) /\
  execute_get_last healthy (service_description oil_record_10000)
    (snd (create_record healthy oil_record_10000 empty_world)) =
    (Ok (Some 10000),
     snd (execute_get_last healthy (service_description oil_record_10000)
            (snd (create_record healthy oil_record_10000 empty_world)))) /\
  Some 10000 = Some (match get_last_service (db empty_world) (service_description oil_record_10000) with
                     | Some l => Z.max l (mileage oil_record_10000)
                     | None => mileage oil_record_10000
                     end).
Proof.
  assert (H1 : create_record healthy oil_record_10000 empty_world =
                 (Ok 1, snd (create_record healthy oil_record_10000 empty_world)))
    by (vm_compute; reflexivity).
  assert (H2 : execute_get_last healthy (service_description oil_record_10000)
                 (snd (create_record healthy oil_record_10000 empty_world)) =
               (Ok (Some 10000),
                snd (execute_get_last healthy (service_description oil_record_10000)
                       (snd (create_record healthy oil_record_10000 empty_world)))))
    by (vm_compute; reflexivity).
  split; [exact H1|]. split; [exact H2|].
  exact (create_record_then_get_last healthy oil_record_10000 empty_world _ _ _ _ H1 H2).
Defined.

(** C2, as stated, fails: with an oil change stored at 30000 km, appending
    one at 10000 km succeeds, and the query then answers 30000, not 10000. *)
Lemma create_record_then_get_last_higher_stored :
  fst (create_record healthy oil_record_10000 oil_world) = Ok 2 /\
  fst (execute_get_last healthy (service_description oil_record_10000)
         (snd (create_record healthy oil_record_10000 oil_world))) = Ok (Some 30000).
Proof. split; vm_compute; reflexivity. Qed.

(** C3 (as corrected): the per-task lookup filters on the description
    only.  Unscheduled-repair rows whose description is none of the
    catalog's never influence the result of [check_necessary_service]:
    dropping them from the table gives the same result. *)
Theorem check_necessary_service_ignores_untracked_repairs
    (fault : nat -> option exn) (m : Z) (w : World) :
  fst (check_necessary_service fault m w) =
  fst (check_necessary_service fault m (set_db (drop_untracked_repairs (db w)) w)).
Proof.
  destruct w as [d c].
  unfold check_necessary_service, set_db, bind, connect, db_op. cbn [db clock].
  destruct (fault c); cbv beta iota; [reflexivity|].
  symmetry. refine (proj1 (scan_ext fault m PLANNED_WORK_WITH_PERIOD [] _ _ (S c) _)).
  intros id desc p Hin. apply get_last_service_drop. unfold catalog_descs.
  apply in_map_iff. exists (id, (desc, p)). auto.
Qed.

(** C3, as stated, fails: an unscheduled repair typed with the oil-change
    description is selected by the lookup, and the due set at 20000 km
    differs from that of the same store without the repair (the oil change
    is due in the latter only). *)
Lemma unscheduled_repair_matches_catalog :
  fst (execute_get_last healthy oil_change repair_world) = Ok (Some 20000) /\
  fst (check_necessary_service healthy 20000 repair_world) =
    Ok [("Замена масляного фильтра", (0, 15000));
        ("Замена воздушного фильтра для салона", (0, 20000))] /\
  fst (check_necessary_service healthy 20000 (set_db (mkDb [] 1) repair_world)) =
    Ok [(oil_change, (0, 15000));
        ("Замена масляного фильтра", (0, 15000));
        ("Замена воздушного фильтра для салона", (0, 20000))].
Proof. split; [|split]; vm_compute; reflexivity. Qed.

(** C4 (as corrected): [create_record] validates nothing.  On a store
    that does not fail, every record whose mileage fits the 64-bit SQLite
    integer, negative or not and whatever its description (empty
    included), is inserted and committed and its new id returned. *)
Theorem create_record_stores_unvalidated (r : LogRecord) (w : World) :
  in_int64 (mileage r) = true ->
  create_record healthy r w =
    (Ok (seq (db w) + 1),
     mkWorld (mkDb (logs (db w) ++ [mkRow (seq (db w) + 1) (mileage r) (service_date r)
                                          (type_ r) (service_description r)])
                   (seq (db w) + 1))
             (S (S (S (clock w))))).
Proof.
  intros H. unfold create_record, bind, execute_insert. rewrite H. reflexivity.
Qed.

Lemma create_record_stores_unvalidated_witness :
  in_int64 (mileage invalid_record) = true /\
  create_record healthy invalid_record empty_world =
    (Ok (seq (db empty_world) + 1),
     mkWorld (mkDb (logs (db empty_world) ++
                    [mkRow (seq (db empty_world) + 1) (mileage invalid_record)
                           (service_date invalid_record) (type_ invalid_record)
                           (service_description invalid_record)])
                   (seq (db empty_world) + 1))
             (S (S (S (clock empty_world))))).
Proof.
  assert (H : in_int64 (mileage invalid_record) = true) by reflexivity.
  split; [exact H|].
  exact (create_record_stores_unvalidated invalid_record empty_world H).
Defined.

(** C4, as stated, fails: a record with mileage -5 and an empty
    description is stored as row 1. *)
Lemma create_record_accepts_invalid :
  create_record healthy invalid_record empty_world =
    (Ok 1, mkWorld (mkDb [mkRow 1 (-5) "2024-06-01" unscheduled_repair ""] 1) 3).
Proof. vm_compute. reflexivity. Qed.

(** C6: on a fixed store, if [check_necessary_service] returns mappings at
    mileages [m1 <= m2], every task in the first is in the second. *)
Theorem check_necessary_service_monotone (fault : nat -> option exn) (w : World)
    (m1 m2 : Z) (r1 : due_map) (w1 : World) (r2 : due_map) (w2 : World) :
  m1 <= m2 ->
  check_necessary_service fault m1 w = (Ok r1, w1) ->
  check_necessary_service fault m2 w = (Ok r2, w2) ->
  forall desc, In desc (Dict.keys r1) -> In desc (Dict.keys r2).
Proof.
  intros Hle H1 H2. apply check_ok in H1. apply check_ok in H2.
  exact (scan_all_mono (db w) m1 m2 _ [] [] r1 r2 Hle (fun k Hk => Hk) H1 H2).
Qed.

Lemma check_necessary_service_monotone_witness :
  14000 <= 20000 /\
  check_necessary_service healthy 14000 empty_world =
    (Ok [(oil_change, (0, 15000)); ("Замена масляного фильтра", (0, 15000))],
     snd (check_necessary_service healthy 14000 empty_world)) /\
  check_necessary_service healthy 20000 empty_world =
    (Ok [(oil_change, (0, 15000)); ("Замена масляного фильтра", (0, 15000));
         ("Замена воздушного фильтра для салона", (0, 20000))],
     snd (check_necessary_service healthy 20000 empty_world)) /\
  (In oil_change (Dict.keys [(oil_change, (0, 15000)); ("Замена масляного фильтра", (0, 15000))]) ->
   In oil_change (Dict.keys [(oil_change, (0, 15000)); ("Замена масляного фильтра", (0, 15000));
                             ("Замена воздушного фильтра для салона", (0, 20000))])).
Proof.
  assert (H0 : 14000 <= 20000) by lia.
  assert (H1 : check_necessary_service healthy 14000 empty_world =
    (Ok [(oil_change, (0, 15000)); ("Замена масляного фильтра", (0, 15000))],
     snd (check_necessary_service healthy 14000 empty_world))) by (vm_compute; reflexivity).
  assert (H2 : check_necessary_service healthy 20000 empty_world =
    (Ok [(oil_change, (0, 15000)); ("Замена масляного фильтра", (0, 15000));
         ("Замена воздушного фильтра для салона", (0, 20000))],
     snd (check_necessary_service healthy 20000 empty_world))) by (vm_compute; reflexivity).
  split; [exact H0|]. split; [exact H1|]. split; [exact H2|].
  exact (check_necessary_service_monotone healthy empty_world 14000 20000 _ _ _ _ H0 H1 H2
           oil_change).
Defined.

(** C7: every row of the service table shown by [display_service_status]
    belongs to a catalog task of interval [p], shows the current mileage,
    and carries exactly one of the two labels: "ТРЕБУЕТСЯ!" (due now)
    exactly when [m >= next], "Скоро потребуется" (upcoming) exactly when
    [next - floor(p * 0.1) <= m < next]. *)
Theorem display_service_status_labels (fault : nat -> option exn) (m : Z) (w : World)
    (rows : list (string * Z * Z * Z * status)) (w' : World)
    (desc : string) (l n c : Z) (st : status) :
  display_service_status fault m w = (Ok (ServiceTable rows), w') ->
  In (desc, l, n, c, st) rows ->
  exists id p, In (id, (desc, p)) PLANNED_WORK_WITH_PERIOD /\ c = m /\
    (st = Required <-> m >= n) /\ (st = Soon <-> n - p / 10 <= m < n).
Proof.
  unfold display_service_status.
  destruct (check_necessary_service fault m w) as [[r|e] w1] eqn:E.
  - intros H.
    assert (Hrows : rows = map (service_row m) r).
    { destruct r as [|e0 r']; [discriminate H|]. injection H as <- _. reflexivity. }
    subst rows. intros Hin.
    apply in_map_iff in Hin as ([k [l' n']] & Heq & Hin).
    unfold service_row in Heq. injection Heq as -> -> -> <- <-.
    apply check_ok in E.
    destruct (scan_all_entries _ _ _ _ _ E desc l n Hin) as [[]|(id & p & a & Hw & Ha & Hn)].
    rewrite (admission_catalog _ _ _ Hw) in Ha. injection Ha as <-.
    exists id, p. split; [exact Hw|]. split; [reflexivity|].
    unfold service_status.
    destruct (Z.geb_spec m n); (split; [split|split]); intros; try discriminate; try lia;
      reflexivity.
  - destruct e; intros H; discriminate H.
Qed.

Lemma display_service_status_labels_witness :
  display_service_status healthy 14000 empty_world =
    (Ok (ServiceTable [(oil_change, 0, 15000, 14000, Soon);
                       ("Замена масляного фильтра", 0, 15000, 14000, Soon)]),
     snd (display_service_status healthy 14000 empty_world)) /\
  In (oil_change, 0, 15000, 14000, Soon)
     [(oil_change, 0, 15000, 14000, Soon); ("Замена масляного фильтра", 0, 15000, 14000, Soon)] /\
  exists id p, In (id, (oil_change, p)) PLANNED_WORK_WITH_PERIOD /\ 14000 = 14000 /\
    (Soon = Required <-> 14000 >= 15000) /\ (Soon = Soon <-> 15000 - p / 10 <= 14000 < 15000).
Proof.
  assert (H1 : display_service_status healthy 14000 empty_world =
    (Ok (ServiceTable [(oil_change, 0, 15000, 14000, Soon);
                       ("Замена масляного фильтра", 0, 15000, 14000, Soon)]),
     snd (display_service_status healthy 14000 empty_world))) by (vm_compute; reflexivity).
  assert (H2 : In (oil_change, 0, 15000, 14000, Soon)
     [(oil_change, 0, 15000, 14000, Soon); ("Замена масляного фильтра", 0, 15000, 14000, Soon)])
    by (left; reflexivity).
  split; [exact H1|]. split; [exact H2|].
  exact (display_service_status_labels healthy 14000 empty_world _ _ oil_change 0 15000 14000 Soon
           H1 H2).
Defined.

(** C8 (as corrected): [check_necessary_service] either returns the
    mapping of the complete catalog scan or raises; no partial mapping is
    returned.  When it raises [sqlite3.OperationalError],
    [display_service_status] shows that error; any other storage error is
    not caught there and propagates out of it.  In no failure case does it
    show the "no service needed" panel. *)
Theorem check_necessary_service_failure (fault : nat -> option exn) (m : Z) (w : World) :
  match check_necessary_service fault m w with
  | (Ok r, _) => full_scan (db w) m = Ok r
  | (Raise e, w') =>
      display_service_status fault m w =
        match e with
        | OperationalError msg => (Ok (DbErrorMessage msg), w')
        | _ => (Raise e, w')
        end
  end.
Proof.
  destruct (check_necessary_service fault m w) as [[r|e] w'] eqn:E.
  - exact (check_ok _ _ _ _ _ E).
  - unfold display_service_status. rewrite E. destruct e; reflexivity.
Qed.

(** C8, as stated, fails: a [sqlite3.DatabaseError] on the first query
    (a malformed database page) is not reported by
    [display_service_status]; it propagates out of it. *)
Lemma display_service_status_database_error_uncaught :
  display_service_status malformed_page 14000 empty_world =
    (Raise (DatabaseError "database disk image is malformed"), mkWorld (mkDb [] 0) 2).
Proof. vm_compute. reflexivity. Qed.

(** C9: two calls of [check_necessary_service] in a row, with no append
    in between, that both return a mapping return the same mapping. *)
Theorem check_necessary_service_idempotent (fault : nat -> option exn) (m : Z) (w : World)
    (r1 : due_map) (w1 : World) (r2 : due_map) (w2 : World) :
  check_necessary_service fault m w = (Ok r1, w1) ->
  check_necessary_service fault m w1 = (Ok r2, w2) ->
  r1 = r2.
Proof.
  intros H1 H2.
  assert (Hdb : db w1 = db w).
  { pose proof (check_db fault m w) as Hd. rewrite H1 in Hd. exact Hd. }
  apply check_ok in H1. apply check_ok in H2. rewrite Hdb in H2. congruence.
Qed.

Lemma check_necessary_service_idempotent_witness :
  check_necessary_service healthy 14000 empty_world =
    (Ok [(oil_change, (0, 15000)); ("Замена масляного фильтра", (0, 15000))],
     snd (check_necessary_service healthy 14000 empty_world)) /\
  check_necessary_service healthy 14000 (snd (check_necessary_service healthy 14000 empty_world)) =
    (Ok [(oil_change, (0, 15000)); ("Замена масляного фильтра", (0, 15000))],
     snd (check_necessary_service healthy 14000
            (snd (check_necessary_service healthy 14000 empty_world)))) /\
  [(oil_change, (0, 15000)); ("Замена масляного фильтра", (0, 15000))] =
  [(oil_change, (0, 15000)); ("Замена масляного фильтра", (0, 15000))].
Proof.
  assert (H1 : check_necessary_service healthy 14000 empty_world =
    (Ok [(oil_change, (0, 15000)); ("Замена масляного фильтра", (0, 15000))],
     snd (check_necessary_service healthy 14000 empty_world))) by (vm_compute; reflexivity).
  assert (H2 : check_necessary_service healthy 14000
                 (snd (check_necessary_service healthy 14000 empty_world)) =
    (Ok [(oil_change, (0, 15000)); ("Замена масляного фильтра", (0, 15000))],
     snd (check_necessary_service healthy 14000
            (snd (check_necessary_service healthy 14000 empty_world)))))
    by (vm_compute; reflexivity).
  split; [exact H1|]. split; [exact H2|].
  exact (check_necessary_service_idempotent healthy 14000 empty_world _ _ _ _ H1 H2).
Defined.

(** C10: [check_necessary_service] leaves the database unchanged: the rows
    of [logs] and its AUTOINCREMENT counter, whether it returns or raises. *)
Theorem check_necessary_service_read_only (fault : nat -> option exn) (m : Z) (w : World) :
  db (snd (check_necessary_service fault m w)) = db w.
Proof.
  unfold check_necessary_service, bind, connect, db_op.
  destruct (fault (clock w)); cbv beta iota; [reflexivity|].
  rewrite scan_db. reflexivity.
Qed.

(** * Further properties of the code *)

Lemma dict_set_fresh {V} (k : string) (v : V) (d : list (string * V)) :
  ~ In k (Dict.keys d) -> Dict.set k v d = (d ++ [(k, v)])%list.
Proof.
  induction d as [|[k0 v0] t IH]; simpl; intros H; [reflexivity|].
  destruct (String.eqb_spec k k0) as [->|Hne]; [exfalso; apply H; left; reflexivity|].
  rewrite IH; [reflexivity|]. intros Hin. apply H. right. exact Hin.
Qed.

Lemma scan_all_closed (d : Db) (m : Z) works acc :
  NoDup (map work_desc works) ->
  (forall id desc p, In (id, (desc, p)) works -> admission p = Some (p / 10)) ->
  (forall desc, In desc (map work_desc works) -> ~ In desc (Dict.keys acc)) ->
  scan_all d m works acc = Ok (acc ++ flat_map (due_entry d m) works)%list.
Proof.
  revert acc.
  induction works as [|[id [desc p]] rest IH]; intros acc Hnd Hadm Hdis; simpl.
  - rewrite app_nil_r. reflexivity.
  - inversion Hnd as [|? ? Hnin Hnd']; subst.
    rewrite (Hadm id desc p (or_introl eq_refl)).
    fold (last_or_zero d desc).
    assert (Hadm' : forall id' desc' p', In (id', (desc', p')) rest ->
                      admission p' = Some (p' / 10)).
    { intros id' desc' p' Hin. exact (Hadm id' desc' p' (or_intror Hin)). }
    destruct (m >=? last_or_zero d desc + p - p / 10).
    + rewrite dict_set_fresh by exact (Hdis desc (or_introl eq_refl)).
      rewrite IH; [rewrite <- app_assoc; reflexivity | exact Hnd' | exact Hadm' |].
      intros desc' Hin' Hk. unfold Dict.keys in Hk. rewrite map_app in Hk.
      apply in_app_or in Hk as [Hk|[Hk|[]]].
      * exact (Hdis desc' (or_intror Hin') Hk).
      * simpl in Hk. subst desc'. exact (Hnin Hin').
    + rewrite IH; [reflexivity | exact Hnd' | exact Hadm' |].
      intros desc' Hin'. apply Hdis. right. exact Hin'.
Qed.

Lemma full_scan_closed (d : Db) (m : Z) : full_scan d m = Ok (due_tasks d m).
Proof.
  unfold full_scan, due_tasks.
  rewrite (scan_all_closed d m _ [] catalog_nodup admission_catalog (fun _ _ H => H)).
  reflexivity.
Qed.

Lemma scan_healthy (cur : Z) works acc (w : World) :
  (forall id desc p, In (id, (desc, p)) works -> exists a, admission p = Some a) ->
  scan healthy cur works acc w =
    (scan_all (db w) cur works acc, mkWorld (db w) (clock w + List.length works)%nat).
Proof.
  revert acc w.
  induction works as [|[id [desc p]] rest IH]; intros acc w Hadm; simpl.
  - rewrite Nat.add_0_r. destruct w; reflexivity.
  - unfold bind, execute_get_last, db_op. simpl.
    destruct (Hadm id desc p (or_introl eq_refl)) as [a Ha]. rewrite Ha.
    assert (Hadm' : forall id' desc' p', In (id', (desc', p')) rest ->
                      exists a', admission p' = Some a').
    { intros id' desc' p' Hin. exact (Hadm id' desc' p' (or_intror Hin)). }
    destruct (_ >=? _); rewrite IH by exact Hadm'; simpl;
      rewrite Nat.add_succ_r; reflexivity.
Qed.

Lemma check_healthy_run (m : Z) (w : World) :
  check_necessary_service healthy m w =
    (Ok (due_tasks (db w) m), mkWorld (db w) (clock w + 13)%nat).
Proof.
  unfold check_necessary_service, bind, connect, db_op.
  change (healthy (clock w)) with (@None exn). cbv beta iota.
  rewrite scan_healthy.
  - change (scan_all (db (mkWorld (db w) (S (clock w)))) m PLANNED_WORK_WITH_PERIOD [])
      with (full_scan (db w) m).
    rewrite full_scan_closed. cbn [db clock].
    change (List.length PLANNED_WORK_WITH_PERIOD) with 12%nat.
    replace (S (clock w) + 12)%nat with (clock w + 13)%nat by lia. reflexivity.
  - intros id desc p Hin. exists (p / 10). exact (admission_catalog _ _ _ Hin).
Qed.

Lemma flat_map_nil {A B} (f : A -> list B) (l : list A) :
  flat_map f l = [] <-> forall x, In x l -> f x = [].
Proof.
  induction l as [|x t IH]; simpl; [tauto|].
  split.
  - intros H. apply app_eq_nil in H as [Hx Ht]. rewrite IH in Ht.
    intros y [<-|Hy]; auto.
  - intros H. rewrite (H x (or_introl eq_refl)). apply IH. auto.
Qed.

Lemma zlookup_In {V} (k : Z) (v : V) (d : list (Z * V)) :
  zlookup k d = Some v -> In (k, v) d.
Proof.
  induction d as [|[k' v'] t IH]; simpl; [discriminate|].
  destruct (Z.eqb_spec k k') as [->|_]; [intros H; injection H as ->; left; reflexivity|].
  intros H. right. exact (IH H).
Qed.

Lemma create_record_raise (fault : nat -> option exn) (r : LogRecord) (w : World) e w' :
  create_record fault r w = (Raise e, w') -> db w' = db w.
Proof.
  intros H.
  unfold create_record, bind, ret, connect, execute_insert, commit, raise, db_op in H.
  destruct (fault (clock w)); simpl in H; [injection H as _ <-; reflexivity|].
  destruct (in_int64 (mileage r)); simpl in H; [|injection H as _ <-; reflexivity].
  destruct (fault (S (clock w))); simpl in H; [injection H as _ <-; reflexivity|].
  destruct (fault (S (S (clock w)))); simpl in H; [injection H as _ <-; reflexivity|].
  discriminate H.
Qed.

Lemma StronglySorted_snoc (l : list Z) (x : Z) :
  StronglySorted Z.lt l -> Forall (fun y => y < x) l -> StronglySorted Z.lt (l ++ [x])%list.
Proof.
  induction l as [|y t IH]; simpl; intros Hs Hf.
  - repeat constructor.
  - inversion Hs; inversion Hf; subst. constructor.
    + apply IH; assumption.
    + apply Forall_app. split; [assumption|]. constructor; [assumption | constructor].
Qed.

(** [check_necessary_service], whenever it returns, returns exactly the
    catalog tasks that are due, in catalog order, each once. *)
Theorem check_necessary_service_closed_form (fault : nat -> option exn) (m : Z) (w : World)
    (r : due_map) (w' : World) :
  check_necessary_service fault m w = (Ok r, w') -> r = due_tasks (db w) m.
Proof.
  intros H. apply check_ok in H. rewrite full_scan_closed in H.
  injection H as ->. reflexivity.
Qed.

Lemma check_necessary_service_closed_form_witness :
  check_necessary_service healthy 14000 oil_world =
    (Ok [("Замена масляного фильтра", (0, 15000))],
     snd (check_necessary_service healthy 14000 oil_world)) /\
  [("Замена масляного фильтра", (0, 15000))] = due_tasks (db oil_world) 14000.
Proof.
  assert (H : check_necessary_service healthy 14000 oil_world =
    (Ok [("Замена масляного фильтра", (0, 15000))],
     snd (check_necessary_service healthy 14000 oil_world))) by (vm_compute; reflexivity).
  split; [exact H|].
  exact (check_necessary_service_closed_form healthy 14000 oil_world _ _ H).
Defined.

(** On a store that never fails, [check_necessary_service] never raises
    (the float tolerance always converts), returns the due tasks, and uses
    exactly 13 database operations: the connection and one query per
    catalog task. *)
Theorem check_necessary_service_healthy (m : Z) (w : World) :
  check_necessary_service healthy m w =
    (Ok (due_tasks (db w) m), mkWorld (db w) (clock w + 13)%nat).
Proof. exact (check_healthy_run m w). Qed.

(** On a store that never fails, [display_service_status] shows the
    "no service needed" panel exactly when every catalog task is still
    below its threshold [L + p - floor(p * 0.1)]. *)
Theorem display_service_status_all_ok (m : Z) (w : World) :
  fst (display_service_status healthy m w) = Ok AllSystemsOk <->
  forall id desc p, In (id, (desc, p)) PLANNED_WORK_WITH_PERIOD ->
    m < last_or_zero (db w) desc + p - p / 10.
Proof.
  unfold display_service_status. rewrite check_healthy_run.
  transitivity (due_tasks (db w) m = []).
  - destruct (due_tasks (db w) m) as [|x t]; simpl; split; auto; discriminate.
  - unfold due_tasks. etransitivity; [apply flat_map_nil|]. split.
    + intros H id desc p Hin. specialize (H _ Hin). simpl in H.
      destruct (Z.geb_spec m (last_or_zero (db w) desc + p - p / 10)); [discriminate|lia].
    + intros H [id [desc p]] Hin. specialize (H _ _ _ Hin). simpl.
      destruct (Z.geb_spec m (last_or_zero (db w) desc + p - p / 10)); [lia|reflexivity].
Qed.

(** When [create_record] raises, at whatever step, the table is left as it
    was: the [with conn:] block rolls the pending insert back. *)
Theorem create_record_failure_keeps_table (fault : nat -> option exn) (r : LogRecord)
    (w : World) (e : exn) (w' : World) :
  create_record fault r w = (Raise e, w') -> db w' = db w.
Proof. exact (create_record_raise fault r w e w'). Qed.

Lemma create_record_failure_keeps_table_witness :
  create_record malformed_page oil_record_10000 oil_world =
    (Raise (DatabaseError "database disk image is malformed"),
     snd (create_record malformed_page oil_record_10000 oil_world)) /\
  db (snd (create_record malformed_page oil_record_10000 oil_world)) = db oil_world.
Proof.
  assert (H : create_record malformed_page oil_record_10000 oil_world =
    (Raise (DatabaseError "database disk image is malformed"),
     snd (create_record malformed_page oil_record_10000 oil_world))) by (vm_compute; reflexivity).
  split; [exact H|].
  exact (create_record_failure_keeps_table malformed_page oil_record_10000 oil_world _ _ H).
Defined.



(** A successful [create_record] only appends: the old rows stay as they
    are, one row with the record's fields and the returned id follows, and
    the AUTOINCREMENT counter becomes that id. *)
Theorem create_record_appends (fault : nat -> option exn) (r : LogRecord) (w : World)
    (i : Z) (w' : World) :
  create_record fault r w = (Ok i, w') ->
  logs (db w') = (logs (db w) ++ [mkRow i (mileage r) (service_date r) (type_ r)
                                        (service_description r)])%list /\
  seq (db w') = i.
Proof.
  intros H. apply create_record_ok in H as [Hdb ->]. rewrite Hdb. split; reflexivity.
Qed.

Lemma create_record_appends_witness :
  create_record healthy oil_record_10000 oil_world =
    (Ok 2, snd (create_record healthy oil_record_10000 oil_world)) /\
  logs (db (snd (create_record healthy oil_record_10000 oil_world))) =
    (logs (db oil_world) ++ [mkRow 2 (mileage oil_record_10000) (service_date oil_record_10000)
                                   (type_ oil_record_10000)
                                   (service_description oil_record_10000)])%list /\
  seq (db (snd (create_record healthy oil_record_10000 oil_world))) = 2.
Proof.
  assert (H : create_record healthy oil_record_10000 oil_world =
    (Ok 2, snd (create_record healthy oil_record_10000 oil_world))) by (vm_compute; reflexivity).
  split; [exact H|].
  exact (create_record_appends healthy oil_record_10000 oil_world _ _ H).
Defined.

(** Ids stay increasing and within the AUTOINCREMENT counter, and the id
    [create_record] returns is larger than every id already stored. *)
Theorem create_record_fresh_id (fault : nat -> option exn) (r : LogRecord) (w : World)
    (i : Z) (w' : World) :
  ids_ok (db w) ->
  create_record fault r w = (Ok i, w') ->
  ids_ok (db w') /\ Forall (fun row => row_id row < i) (logs (db w)).
Proof.
  intros [Hs Hb] H. apply create_record_ok in H as [Hdb ->].
  assert (Hlt : Forall (fun row => row_id row < seq (db w) + 1) (logs (db w))).
  { refine (Forall_impl _ _ Hb). intros row Hr. lia. }
  split; [|exact Hlt].
  rewrite Hdb. unfold ids_ok, insert_row. cbn [logs seq snd].
  split.
  - rewrite map_app. apply StronglySorted_snoc; [exact Hs|].
    apply Forall_map. exact Hlt.
  - apply Forall_app. split.
    + refine (Forall_impl _ _ Hb). intros row Hr. lia.
    + constructor; [simpl; lia | constructor].
Qed.

Lemma create_record_fresh_id_witness :
  ids_ok (db oil_world) /\
  create_record healthy oil_record_10000 oil_world =
    (Ok 2, snd (create_record healthy oil_record_10000 oil_world)) /\
  ids_ok (db (snd (create_record healthy oil_record_10000 oil_world))) /\
  Forall (fun row => row_id row < 2) (logs (db oil_world)).
Proof.
  assert (H1 : ids_ok (db oil_world)).
  { split; simpl; repeat constructor; simpl; lia. }
  assert (H2 : create_record healthy oil_record_10000 oil_world =
    (Ok 2, snd (create_record healthy oil_record_10000 oil_world))) by (vm_compute; reflexivity).
  split; [exact H1|]. split; [exact H2|].
  exact (create_record_fresh_id healthy oil_record_10000 oil_world _ _ H1 H2).
Defined.

(** Recording scheduled work [k] through [main] at mileage [M], when no
    earlier record of that work has a higher mileage, restarts that task:
    afterwards it is due exactly from [M + p - floor(p * 0.1)] on, with
    value [(M, M + p)]. *)
Theorem recorded_work_restarts_task (fault : nat -> option exn) (w : World) (k M : Z)
    (today free_text : string) (rec : LogRecord) (i : Z) (w1 : World) (m : Z)
    (r : due_map) (w2 : World) (desc : string) (p : Z) :
  record_of_answers M today 0 k free_text = Some rec ->
  zlookup k PLANNED_WORK_WITH_PERIOD = Some (desc, p) ->
  (forall l, get_last_service (db w) desc = Some l -> l <= M) ->
  create_record fault rec w = (Ok i, w1) ->
  check_necessary_service fault m w1 = (Ok r, w2) ->
  Dict.get desc r = if m >=? M + p - p / 10 then Some (M, M + p) else None.
Proof.
  intros Hrec Hk Hmax Hc Hchk.
  unfold record_of_answers in Hrec.
  change (zlookup 0 SERVICE_TYPE) with (Some scheduled_maintenance) in Hrec.
  change (0 =? 0) with true in Hrec. cbv beta iota in Hrec.
  rewrite Hk in Hrec. injection Hrec as <-.
  apply create_record_ok in Hc as [Hdb _]. apply check_ok in Hchk.
  pose proof (zlookup_In _ _ _ Hk) as Hin.
  pose proof (scan_all_get_in (db w1) m _ [] r k desc p (p / 10) catalog_nodup Hin
                (admission_catalog _ _ _ Hin) Hchk) as Hget.
  cbv zeta in Hget. rewrite Hget, Hdb.
  pose proof (get_last_service_insert (mkLogRecord M today scheduled_maintenance desc) (db w))
    as Hl.
  cbn [service_description mileage] in Hl. rewrite Hl.
  assert (HM : match get_last_service (db w) desc with
               | Some l => Z.max l M | None => M end = M).
  { destruct (get_last_service (db w) desc) as [l|] eqn:E; [|reflexivity].
    specialize (Hmax l eq_refl). lia. }
  rewrite HM. reflexivity.
Qed.

Lemma recorded_work_restarts_task_witness :
  record_of_answers 15000 "2024-06-01" 0 0 "" =
    Some (mkLogRecord 15000 "2024-06-01" scheduled_maintenance oil_change) /\
  zlookup 0 PLANNED_WORK_WITH_PERIOD = Some (oil_change, 15000) /\
  (forall l, get_last_service (db empty_world) oil_change = Some l -> l <= 15000) /\
  create_record healthy (mkLogRecord 15000 "2024-06-01" scheduled_maintenance oil_change)
    empty_world =
    (Ok 1, snd (create_record healthy
                  (mkLogRecord 15000 "2024-06-01" scheduled_maintenance oil_change) empty_world)) /\
  check_necessary_service healthy 29000
    (snd (create_record healthy
            (mkLogRecord 15000 "2024-06-01" scheduled_maintenance oil_change) empty_world)) =
    (Ok [(oil_change, (15000, 30000)); ("Замена масляного фильтра", (0, 15000));
         ("Замена воздушного фильтра для салона", (0, 20000))],
     snd (check_necessary_service healthy 29000
            (snd (create_record healthy
                    (mkLogRecord 15000 "2024-06-01" scheduled_maintenance oil_change)
                    empty_world)))) /\
  Dict.get oil_change
    [(oil_change, (15000, 30000)); ("Замена масляного фильтра", (0, 15000));
     ("Замена воздушного фильтра для салона", (0, 20000))] =
    if 29000 >=? 15000 + 15000 - 15000 / 10 then Some (15000, 15000 + 15000) else None.
Proof.
  assert (H1 : record_of_answers 15000 "2024-06-01" 0 0 "" =
    Some (mkLogRecord 15000 "2024-06-01" scheduled_maintenance oil_change)) by reflexivity.
  assert (H2 : zlookup 0 PLANNED_WORK_WITH_PERIOD = Some (oil_change, 15000)) by reflexivity.
  assert (H3 : forall l, get_last_service (db empty_world) oil_change = Some l -> l <= 15000).
  { intros l H. discriminate H. }
  assert (H4 : create_record healthy (mkLogRecord 15000 "2024-06-01" scheduled_maintenance oil_change)
    empty_world =
    (Ok 1, snd (create_record healthy
                  (mkLogRecord 15000 "2024-06-01" scheduled_maintenance oil_change) empty_world)))
    by (vm_compute; reflexivity).
  assert (H5 : check_necessary_service healthy 29000
    (snd (create_record healthy
            (mkLogRecord 15000 "2024-06-01" scheduled_maintenance oil_change) empty_world)) =
    (Ok [(oil_change, (15000, 30000)); ("Замена масляного фильтра", (0, 15000));
         ("Замена воздушного фильтра для салона", (0, 20000))],
     snd (check_necessary_service healthy 29000
            (snd (create_record healthy
                    (mkLogRecord 15000 "2024-06-01" scheduled_maintenance oil_change)
                    empty_world))))) by (vm_compute; reflexivity).
  split; [exact H1|]. split; [exact H2|]. split; [exact H3|]. split; [exact H4|].
  split; [exact H5|].
  exact (recorded_work_restarts_task healthy empty_world 0 15000 "2024-06-01" "" _ _ _ 29000 _ _
           oil_change 15000 H1 H2 H3 H4 H5).
Defined.

(** ** Lemmas on the decimal printer *)


















(** ** Lemmas on the history *)

Lemma show_service_history_ok (fault : nat -> option exn) (date_cell : string -> string)
    (w : World) (s : history_screen) (w' : World) :
  show_service_history fault date_cell w = (Ok s, w') ->
  w' = mkWorld (db w) (S (S (clock w))) /\
  s = match logs (db w) with
      | [] => EmptyHistory
      | _ :: _ => HistoryTable (map (history_row date_cell) (logs (db w)))
      end.
Proof.
  intros H. unfold show_service_history, execute_get_all, connect, bind, ret, db_op in H.
  destruct (fault (clock w)); cbn in H; [discriminate H|].
  destruct (fault (S (clock w))); cbn in H; [discriminate H|].
  destruct (logs (db w)); injection H as <- <-; split; reflexivity.
Qed.

(** ** History properties *)

(** A record stored by [create_record] is shown by a later
    [show_service_history] as the last row of the table, after every row
    stored before it, with the id [create_record] returned, its mileage
    with thousands separators and its type styled by [service_style]. *)
Theorem create_record_then_history (fault : nat -> option exn) (date_cell : string -> string)
    (r : LogRecord) (w : World) (i : Z) (w1 : World) (s : history_screen) (w2 : World) :
  create_record fault r w = (Ok i, w1) ->
  show_service_history fault date_cell w1 = (Ok s, w2) ->
  s = HistoryTable
        (map (history_row date_cell) (logs (db w)) ++
         [(py_str i, mileage_cell (mileage r), date_cell (service_date r),
           ("[" ++ service_style (type_ r) ++ "]" ++ type_ r ++ "[/]")%string,
           service_description r)])%list.
Proof.
  intros Hc Hs. apply create_record_ok in Hc as [Hdb Hi].
  apply show_service_history_ok in Hs as [_ ->]. rewrite Hdb. cbn [insert_row snd logs].
  rewrite <- Hi.
  destruct (logs (db w)) as [|x l]; [reflexivity|].
  cbn [app map]. rewrite map_app. reflexivity.
Qed.

Lemma create_record_then_history_witness :
  create_record healthy oil_record_10000 oil_world =
    (Ok 2, snd (create_record healthy oil_record_10000 oil_world)) /\
  show_service_history healthy (fun d => d) (snd (create_record healthy oil_record_10000 oil_world)) =
    (Ok (HistoryTable
           [("1", "30 000", "2024-05-01", "[success]плановое ТО[/]", oil_change);
            ("2", "10 000", "2024-06-01", "[success]плановое ТО[/]", oil_change)]),
     snd (show_service_history healthy (fun d => d)
            (snd (create_record healthy oil_record_10000 oil_world)))) /\
  HistoryTable
    [("1", "30 000", "2024-05-01", "[success]плановое ТО[/]", oil_change);
     ("2", "10 000", "2024-06-01", "[success]плановое ТО[/]", oil_change)] =
  HistoryTable
    (map (history_row (fun d => d)) (logs (db oil_world)) ++
     [(py_str 2, mileage_cell (mileage oil_record_10000), service_date oil_record_10000,
       ("[" ++ service_style (type_ oil_record_10000) ++ "]" ++ type_ oil_record_10000 ++ "[/]")%string,
       service_description oil_record_10000)])%list.
Proof.
  assert (H1 : create_record healthy oil_record_10000 oil_world =
    (Ok 2, snd (create_record healthy oil_record_10000 oil_world))) by (vm_compute; reflexivity).
  assert (H2 : show_service_history healthy (fun d => d)
                 (snd (create_record healthy oil_record_10000 oil_world)) =
    (Ok (HistoryTable
           [("1", "30 000", "2024-05-01", "[success]плановое ТО[/]", oil_change);
            ("2", "10 000", "2024-06-01", "[success]плановое ТО[/]", oil_change)]),
     snd (show_service_history healthy (fun d => d)
            (snd (create_record healthy oil_record_10000 oil_world)))))
    by (vm_compute; reflexivity).
  split; [exact H1|]. split; [exact H2|].
  exact (create_record_then_history healthy (fun d => d) oil_record_10000 oil_world 2 _ _ _ H1 H2).
Defined.

(** [show_service_history] never changes the table, whether it succeeds
    or raises. *)
Theorem show_service_history_read_only (fault : nat -> option exn)
    (date_cell : string -> string) (w : World) :
  db (snd (show_service_history fault date_cell w)) = db w.
Proof.
  unfold show_service_history, execute_get_all, connect, bind, ret, db_op.
  destruct (fault (clock w)); cbn; [reflexivity|].
  destruct (fault (S (clock w))); cbn; [reflexivity|].
  destruct (logs (db w)); reflexivity.
Qed.

(** A record built by [main] from its prompts is shown in the history in
    the "success" style exactly when the service type chosen was 0
    (scheduled maintenance); a repair (type 1) is shown as "warning",
    whatever its free text. *)
Theorem record_of_answers_style (M : Z) (today : string) (st k : Z) (free_text : string)
    (rec : LogRecord) :
  record_of_answers M today st k free_text = Some rec ->
  service_style (type_ rec) = if st =? 0 then "success" else "warning".
Proof.
  unfold record_of_answers. cbn [zlookup SERVICE_TYPE].
  destruct (st =? 0) eqn:E0.
  - destruct (zlookup k PLANNED_WORK_WITH_PERIOD) as [[desc p]|]; intros H; [|discriminate H].
    injection H as <-. reflexivity.
  - destruct (st =? 1); intros H; [|discriminate H]. injection H as <-. reflexivity.
Qed.

Lemma record_of_answers_style_witness :
  record_of_answers 42000 "2024-07-15" 1 0 "Замена лампы ближнего света" =
    Some (mkLogRecord 42000 "2024-07-15" unscheduled_repair "Замена лампы ближнего света") /\
  service_style unscheduled_repair = "warning".
Proof.
  assert (H : record_of_answers 42000 "2024-07-15" 1 0 "Замена лампы ближнего света" =
    Some (mkLogRecord 42000 "2024-07-15" unscheduled_repair "Замена лампы ближнего света"))
    by reflexivity.
  split; [exact H|].
  exact (record_of_answers_style 42000 "2024-07-15" 1 0 _ _ H).
Defined.
